(** * image_generator.py: the PNG to text pixel-dump script

    A shallow embedding of [src/image_generator.py] and the properties of
    its output.  The script is a straight-line Python program: it decodes
    [icon.png] with PIL, opens [icon.ppm] for writing, writes a two-line
    header and then one line per pixel from a nested [for] loop.

    The embedding follows the script statement by statement in a small
    state-and-exception monad over the file system.  PIL itself is not part
    of the repository; what the script relies on is modelled after the
    library's interface: [Image.size] is the pair (width, height), pixel
    access [pixels[x, y]] takes the horizontal coordinate first and raises
    [IndexError] outside the image, and a pixel is a tuple of ints for a
    multi-band image and a bare int for a single-band one. *)

From Stdlib Require Import ZArith List String Ascii Bool Lia.
From Stdlib Require Import Decimal DecimalString DecimalPos DecimalZ.
Import ListNotations.

Open Scope string_scope.

(** ** Python values *)

(** The line terminator written by ["\n"] in text mode. *)
Definition LF : ascii := "010"%char.
Definition nl : string := String LF EmptyString.

(** [str(n)] for a Python int, which is what an f-string field [{n}]
    without format specification produces. *)
Definition str (n : Z) : string := NilZero.string_of_int (Z.to_int n).

(** The exceptions the script can raise; none of them is caught. *)
Inductive exn : Type :=
| FileNotFoundError (path : string)
| UnidentifiedImageError (path : string)
| PermissionError (path : string)
| ImageIndexError (x y : nat)   (* pixels[x, y]: image index out of range *)
| TupleIndexError (i : nat)     (* rbga[i]: tuple index out of range *)
| TypeError.                    (* rbga[i] on an int: not subscriptable *)

(** A pixel as PIL's pixel access hands it out. *)
Inductive pixel : Type :=
| Band (v : Z)
| Bands (t : list Z).

(** [rbga[i]] for a constant non-negative index [i]. *)
Definition getitem (rbga : pixel) (i : nat) : exn + Z :=
  match rbga with
  | Band _ => inl TypeError
  | Bands t =>
      match nth_error t i with
      | Some v => inr v
      | None => inl (TupleIndexError i)
      end
  end.

(** ** The decoded image *)

(** [xsize] is the number of columns (the width), [ysize] the number of
    rows (the height); [getpixel x y] is only looked at inside the image. *)
Record Image : Type := mkImage {
  xsize : nat;
  ysize : nat;
  getpixel : nat -> nat -> pixel
}.

(** [im.size]: width first. *)
Definition size (im : Image) : nat * nat := (xsize im, ysize im).

(** [im.load()] gives the pixel access object; [pixels[x, y]] is
    [load im (x, y)]. *)
Definition load (im : Image) (xy : nat * nat) : exn + pixel :=
  let '(x, y) := xy in
  if ((x <? xsize im) && (y <? ysize im))%nat
  then inr (getpixel im x y)
  else inl (ImageIndexError x y).

(** ** Files and the monad of the script *)

(** The file system: the contents of the files that exist, and which paths
    can be opened for writing. *)
Record World : Type := mkWorld {
  files : string -> option string;
  writable : string -> bool
}.

Definition M (A : Type) : Type := World -> (exn + A) * World.

Definition ret {A : Type} (a : A) : M A := fun w => (inr a, w).

Definition raise {A : Type} (e : exn) : M A := fun w => (inl e, w).

Definition bind {A B : Type} (m : M A) (k : A -> M B) : M B :=
  fun w =>
    match m w with
    | (inl e, w') => (inl e, w')
    | (inr a, w') => k a w'
    end.

(** A pure computation that may raise. *)
Definition lift {A : Type} (r : exn + A) : M A := fun w => (r, w).

Notation "x <- m ;; k" := (bind m (fun x => k))
  (at level 61, m at next level, right associativity).
Notation "m ;;; k" := (bind m (fun _ => k))
  (at level 61, right associativity).

(** What a file holds, the empty text when it does not exist. *)
Definition content (w : World) (path : string) : string :=
  match files w path with
  | Some c => c
  | None => EmptyString
  end.

Definition set_file (w : World) (path : string) (c : string) : World :=
  {| files := fun p => if (p =? path)%string then Some c else files w p;
     writable := writable w |}.

(** [open(path, "w")]: creates or truncates; the handle is the path. *)
Definition open_w (path : string) : M string :=
  fun w =>
    if writable w path
    then ret path (set_file w path EmptyString)
    else raise (PermissionError path) w.

(** [outfile.write(s)].  Buffering is not modelled: a file holds what has
    been written to it, which is what is on disk once the process is over. *)
Definition write (outfile : string) (s : string) : M unit :=
  fun w => (inr tt, set_file w outfile (content w outfile ++ s)).

(** [for a in l: body(a)]. *)
Fixpoint for_each {A : Type} (l : list A) (body : A -> M unit) : M unit :=
  match l with
  | [] => ret tt
  | a :: l' => body a ;;; for_each l' body
  end.

Definition range (n : nat) : list nat := seq 0 n.

(** ** The script *)

Section Script.

(** The image decoder of PIL on the bytes of a file: [Image.open] followed
    by [load], [None] when either of them raises. *)
Variable decode : string -> option Image.

(** [Image.open(path)] and the [load] that follows it.  PIL does not hand
    out an image without pixels: its image file loader turns down a header
    whose width or height is not positive ("not identified by this
    driver"), and [Image.open] then reports the file as unidentified. *)
Definition Image_open (path : string) : M Image :=
  fun w =>
    match files w path with
    | None => raise (FileNotFoundError path) w
    | Some bytes =>
        match decode bytes with
        | None => raise (UnidentifiedImageError path) w
        | Some im =>
            if ((0 <? xsize im) && (0 <? ysize im))%nat
            then ret im w
            else raise (UnidentifiedImageError path) w
        end
    end.

(** The body of the inner loop (lines 13 to 15). *)
Definition emit (pixels : nat * nat -> exn + pixel) (outfile : string)
    (x y : nat) : M unit :=
  rbga <- lift (pixels (x, y)) ;;
  c2 <- lift (getitem rbga 2) ;;
  c0 <- lift (getitem rbga 0) ;;
  c1 <- lift (getitem rbga 1) ;;
  c3 <- lift (getitem rbga 3) ;;
  write outfile
    (str c2 ++ " " ++ str c0 ++ " " ++ str c1 ++ " " ++ str c3 ++ nl).

(** The whole script, top to bottom. *)
Definition main : M unit :=
  im <- Image_open "icon.png" ;;
  let pixels := load im in
  outfile <- open_w "icon.ppm" ;;
  let '(height, width) := size im in
  write outfile
    ("P3" ++ nl ++ str (Z.of_nat width) ++ " " ++ str (Z.of_nat height) ++ nl) ;;;
  for_each (range height) (fun y =>
    for_each (range width) (fun x =>
      emit pixels outfile x y)).

End Script.

(** ** Reading the output back *)

(** The lines of a text: the pieces between line terminators, the
    terminators themselves left out. *)
Fixpoint lines (s : string) : list string :=
  match s with
  | EmptyString => []
  | String c s' =>
      if Ascii.eqb c LF then EmptyString :: lines s'
      else
        match lines s' with
        | [] => [String c EmptyString]
        | l :: ls => String c l :: ls
        end
  end.

(** ** Test images *)

(** The 1x1 opaque red image. *)
Definition red1x1 : Image :=
  mkImage 1 1 (fun _ _ => Bands [255; 0; 0; 255]%Z).

(** The image 2 wide and 1 high with pixels (10,20,30,255) and
    (40,50,60,255), left to right. *)
Definition img2x1 : Image :=
  mkImage 2 1 (fun x _ =>
    match x with
    | 0 => Bands [10; 20; 30; 255]%Z
    | _ => Bands [40; 50; 60; 255]%Z
    end).

(** A file system holding only [icon.png], everything writable. *)
Definition world_with (bytes : string) : World :=
  mkWorld (fun p => if (p =? "icon.png")%string then Some bytes else None)
          (fun _ => true).

(** A file system without files, everything writable. *)
Definition empty_world : World :=
  mkWorld (fun _ => None) (fun _ => true).

(** The image 2 wide and 1 high in mode RGB: three channels per pixel. *)
Definition rgb2x1 : Image :=
  mkImage 2 1 (fun _ _ => Bands [10; 20; 30]%Z).

(** The 1x1 image in mode LA: grey level and alpha, two channels. *)
Definition la1x1 : Image :=
  mkImage 1 1 (fun _ _ => Bands [7; 255]%Z).

(** The image 3 wide and 2 high whose pixel at (x, y) is (x, y, 0, 255),
    so that every line of the output tells which pixel it comes from. *)
Definition img3x2 : Image :=
  mkImage 3 2 (fun x y => Bands [Z.of_nat x; Z.of_nat y; 0; 255]%Z).

(** ** What a run leaves behind *)

(** The exception the run ends with, or [inr tt] when it completes. *)
Definition outcome (decode : string -> option Image) (w : World) : exn + unit :=
  fst (main decode w).

(** The destination file after the run. *)
Definition output (decode : string -> option Image) (w : World) : option string :=
  files (snd (main decode w)) "icon.ppm".

(** The decoding step of the run on [w] succeeds and gives [im]. *)
Definition decoded (decode : string -> option Image) (w : World) (im : Image) : Prop :=
  Image_open decode "icon.png" w = (inr im, w).

(** The line one turn of the inner loop formats at [(x, y)], without its
    terminator, or the exception it raises before writing. *)
Definition pixel_line (im : Image) (xy : nat * nat) : exn + string :=
  match load im xy with
  | inl e => inl e
  | inr rbga =>
      match getitem rbga 2 with
      | inl e => inl e
      | inr c2 =>
      match getitem rbga 0 with
      | inl e => inl e
      | inr c0 =>
      match getitem rbga 1 with
      | inl e => inl e
      | inr c1 =>
      match getitem rbga 3 with
      | inl e => inl e
      | inr c3 => inr (str c2 ++ " " ++ str c0 ++ " " ++ str c1 ++ " " ++ str c3)
      end end end end
  end.

(** A line with its terminator, as it goes to the file. *)
Definition terminated (r : exn + string) : exn + string :=
  match r with
  | inl e => inl e
  | inr l => inr (l ++ nl)
  end.

(** The text one turn of the inner loop writes. *)
Definition emitted (im : Image) (xy : nat * nat) : exn + string :=
  terminated (pixel_line im xy).

(** The coordinates the nested loop goes through, in the order of the
    loop, for the values the script holds in [height] and [width]. *)
Definition visited (height width : nat) : list (nat * nat) :=
  flat_map (fun y => map (fun x => (x, y)) (range width)) (range height).

(** The texts written one after the other until the first exception. *)
Fixpoint collect (rs : list (exn + string)) : (exn + unit) * string :=
  match rs with
  | [] => (inr tt, EmptyString)
  | inl e :: _ => (inl e, EmptyString)
  | inr s :: rs' => let '(r, t) := collect rs' in (r, s ++ t)
  end.

(** The first exception of a list of results, [inr tt] when there is none. *)
Fixpoint first_error {A : Type} (rs : list (exn + A)) : exn + unit :=
  match rs with
  | [] => inr tt
  | inl e :: _ => inl e
  | inr _ :: rs' => first_error rs'
  end.

(** The results before the first exception. *)
Fixpoint until_error {A : Type} (rs : list (exn + A)) : list A :=
  match rs with
  | inr a :: rs' => a :: until_error rs'
  | _ => []
  end.

(** The two header lines as the script writes them. *)
Definition header (im : Image) : string :=
  "P3" ++ nl ++ str (Z.of_nat (ysize im)) ++ " " ++ str (Z.of_nat (xsize im)) ++ nl.

(** No line terminator inside a text. *)
Fixpoint no_nl (s : string) : bool :=
  match s with
  | EmptyString => true
  | String c s' => negb (Ascii.eqb c LF) && no_nl s'
  end.

(** At least four channels. *)
Definition four_bands (p : pixel) : bool :=
  match p with
  | Bands (_ :: _ :: _ :: _ :: _) => true
  | _ => false
  end.

(** The second line as the script writes it. *)
Definition size_line (im : Image) : string :=
  str (Z.of_nat (ysize im)) ++ " " ++ str (Z.of_nat (xsize im)).

(** A decoder that reads every file as the image [im]: the stand-in for
    PIL in the runs on the test images. *)
Definition decode_as (im : Image) : string -> option Image :=
  fun _ => Some im.

(** A file system where the destination already holds the text [old]. *)
Definition stale_world (bytes old : string) : World :=
  mkWorld (fun p => if (p =? "icon.png")%string then Some bytes
                    else if (p =? "icon.ppm")%string then Some old
                    else None)
          (fun _ => true).

(** A file system whose destination cannot be opened for writing. *)
Definition locked_world (bytes : string) : World :=
  mkWorld (fun p => if (p =? "icon.png")%string then Some bytes else None)
          (fun p => negb (p =? "icon.ppm")%string).

(** The text of a list of lines, each followed by its terminator. *)
Fixpoint unlines (ls : list string) : string :=
  match ls with
  | [] => EmptyString
  | l :: ls' => l ++ nl ++ unlines ls'
  end.

(** The second world has the files and the permissions of the first, but
    for the file at [path]. *)
Definition same_but (path : string) (w w' : World) : Prop :=
  (forall p, p <> path -> files w' p = files w p) /\
  (forall p, writable w' p = writable w p).

(** No blank inside a text. *)
Fixpoint no_sp (s : string) : bool :=
  match s with
  | EmptyString => true
  | String c s' => negb (Ascii.eqb c " ") && no_sp s'
  end.

(** Exactly four channels: a pixel of an RGBA image. *)
Definition rgba (p : pixel) : bool :=
  match p with
  | Bands [_; _; _; _] => true
  | _ => false
  end.

(** * Properties *)

(** ** Texts and lines *)

Lemma append_nil_r (s : string) : s ++ EmptyString = s.
Proof. induction s as [|c s IH]; simpl; [reflexivity | now rewrite IH]. Qed.

Lemma append_assoc (a b c : string) : (a ++ b) ++ c = a ++ b ++ c.
Proof. induction a as [|x a IH]; simpl; [reflexivity | now rewrite IH]. Qed.

Lemma no_nl_app (a b : string) : no_nl (a ++ b) = no_nl a && no_nl b.
Proof.
  induction a as [|x a IH]; simpl; [reflexivity|].
  rewrite IH. now rewrite andb_assoc.
Qed.

Lemma no_nl_uint (d : uint) : no_nl (NilEmpty.string_of_uint d) = true.
Proof. induction d; simpl; auto. Qed.

Lemma no_nl_str (n : Z) : no_nl (str n) = true.
Proof.
  unfold str, NilZero.string_of_int.
  destruct (Z.to_int n) as [d|d]; unfold NilZero.string_of_uint;
    destruct d; simpl; auto using no_nl_uint.
Qed.

(** Texts built from numbers and blanks hold no line terminator. *)
Ltac no_nl_solve :=
  repeat first [rewrite no_nl_app | rewrite no_nl_str | progress simpl];
  reflexivity.

(** A terminated line in front of a text is its first line. *)
Lemma lines_cons (l t : string) :
  no_nl l = true -> lines (l ++ nl ++ t) = l :: lines t.
Proof.
  change (nl ++ t) with (String LF t).
  induction l as [|c l IH]; simpl; intros H; [reflexivity|].
  apply andb_prop in H. destruct H as [Hc Hl].
  apply negb_true_iff in Hc. rewrite Hc, (IH Hl). reflexivity.
Qed.

(** ** The loops *)

Lemma for_each_app {A : Type} (l l' : list A) (body : A -> M unit) (w : World) :
  for_each (l ++ l')%list body w = (for_each l body ;;; for_each l' body) w.
Proof.
  revert w. induction l as [|a l IH]; intros w; simpl.
  - reflexivity.
  - unfold bind in *. destruct (body a w) as [[e|[]] w1]; [reflexivity|].
    apply IH.
Qed.

Lemma for_each_map {A B : Type} (h : A -> B) (l : list A) (body : B -> M unit)
    (w : World) :
  for_each (map h l) body w = for_each l (fun a => body (h a)) w.
Proof.
  revert w. induction l as [|a l IH]; intros w; simpl; [reflexivity|].
  unfold bind. destruct (body (h a) w) as [[e|[]] w1]; [reflexivity | apply IH].
Qed.

(** The nested loop is one loop over the coordinates it visits. *)
Lemma for_each_nested (hs ws : list nat) (body : nat -> nat -> M unit) (w : World) :
  for_each hs (fun y => for_each ws (fun x => body x y)) w =
  for_each (flat_map (fun y => map (fun x => (x, y)) ws) hs)
           (fun xy => body (fst xy) (snd xy)) w.
Proof.
  revert w. induction hs as [|y hs IH]; intros w; simpl; [reflexivity|].
  rewrite for_each_app. unfold bind. rewrite for_each_map. simpl.
  destruct (for_each ws (fun x => body x y) w) as [[e|[]] w1];
    [reflexivity | apply IH].
Qed.

(** One turn of the inner loop either raises, leaving the files alone, or
    appends its text to the destination. *)
Lemma emit_run (im : Image) (outfile : string) (x y : nat) (w : World) :
  emit (load im) outfile x y w =
  match emitted im (x, y) with
  | inl e => (inl e, w)
  | inr s => (inr tt, set_file w outfile (content w outfile ++ s))
  end.
Proof.
  unfold emit, emitted, pixel_line, terminated, bind, lift, write.
  destruct (load im (x, y)) as [e|rbga]; [reflexivity|].
  destruct (getitem rbga 2) as [e|c2]; [reflexivity|].
  destruct (getitem rbga 0) as [e|c0]; [reflexivity|].
  destruct (getitem rbga 1) as [e|c1]; [reflexivity|].
  destruct (getitem rbga 3) as [e|c3]; [reflexivity|].
  now rewrite !append_assoc.
Qed.

Lemma files_set_file (w : World) (path c : string) :
  files (set_file w path c) path = Some c.
Proof. simpl. now rewrite String.eqb_refl. Qed.

(** A loop whose turns raise or append: the outcome and what the
    destination holds at the end. *)
Lemma for_each_collect {A : Type} (g : A -> exn + string) (outfile : string)
    (body : A -> M unit) (l : list A) :
  (forall a w, body a w =
     match g a with
     | inl e => (inl e, w)
     | inr s => (inr tt, set_file w outfile (content w outfile ++ s))
     end) ->
  forall (w : World) (c : string),
    files w outfile = Some c ->
    fst (for_each l body w) = fst (collect (map g l)) /\
    files (snd (for_each l body w)) outfile =
      Some (c ++ snd (collect (map g l))).
Proof.
  intros Hbody. induction l as [|a l IH]; intros w c Hc; simpl.
  - rewrite append_nil_r. auto.
  - unfold bind. rewrite Hbody. destruct (g a) as [e|s]; simpl.
    + rewrite append_nil_r. auto.
    + assert (Hc' : files (set_file w outfile (content w outfile ++ s)) outfile
                    = Some (c ++ s)).
      { rewrite files_set_file. unfold content. now rewrite Hc. }
      destruct (IH _ _ Hc') as [Hr Hf].
      destruct (collect (map g l)) as [r t]. simpl in *.
      rewrite append_assoc in Hf. auto.
Qed.

(** What decoding gives has at least one pixel. *)
Lemma decoded_positive (decode : string -> option Image) (w : World) (im : Image) :
  decoded decode w im -> 0 < xsize im /\ 0 < ysize im.
Proof.
  unfold decoded, Image_open, raise, ret.
  destruct (files w "icon.png") as [bytes|]; [|discriminate].
  destruct (decode bytes) as [im'|]; [|discriminate].
  destruct ((0 <? xsize im') && (0 <? ysize im'))%nat eqn:Hpos; [|discriminate].
  intros [= ->]. apply andb_prop in Hpos. destruct Hpos as [Hx Hy].
  apply Nat.ltb_lt in Hx. apply Nat.ltb_lt in Hy. auto.
Qed.

(** The run of the script on a decoded image with a writable destination:
    the header, then the pixel texts up to the first exception.  The loop
    bounds are the transposed sizes: [height] holds [xsize im] and [width]
    holds [ysize im]. *)
Lemma main_run (decode : string -> option Image) (w : World) (im : Image) :
  decoded decode w im ->
  writable w "icon.ppm" = true ->
  outcome decode w =
    fst (collect (map (emitted im) (visited (xsize im) (ysize im)))) /\
  output decode w =
    Some (header im ++
          snd (collect (map (emitted im) (visited (xsize im) (ysize im))))).
Proof.
  intros Hdec Hw.
  set (w1 := set_file (set_file w "icon.ppm" EmptyString) "icon.ppm" (header im)).
  assert (Hmain : main decode w =
                  for_each (visited (xsize im) (ysize im))
                    (fun xy => emit (load im) "icon.ppm" (fst xy) (snd xy)) w1).
  { unfold main, bind. rewrite Hdec. unfold open_w. rewrite Hw.
    unfold ret, size, write. apply for_each_nested. }
  unfold outcome, output. rewrite Hmain.
  apply (for_each_collect (emitted im) "icon.ppm").
  - intros [x y] w'. simpl. apply emit_run.
  - unfold w1. apply files_set_file.
Qed.

(** ** Results up to the first exception *)

Lemma collect_outcome (rs : list (exn + string)) :
  fst (collect (map terminated rs)) = first_error rs.
Proof.
  induction rs as [|[e|l] rs IH]; simpl; try reflexivity.
  destruct (collect (map terminated rs)) as [r t]. exact IH.
Qed.

Lemma collect_lines (rs : list (exn + string)) :
  (forall l, In (inr l) rs -> no_nl l = true) ->
  lines (snd (collect (map terminated rs))) = until_error rs.
Proof.
  induction rs as [|[e|l] rs IH]; intros Hnl; simpl; try reflexivity.
  destruct (collect (map terminated rs)) as [r t] eqn:Hcol. simpl in *.
  rewrite append_assoc, lines_cons by (apply Hnl; now left).
  f_equal. apply IH. intros l' Hin. apply Hnl. now right.
Qed.

Lemma first_error_all_ok {A : Type} (rs : list (exn + A)) :
  first_error rs = inr tt -> forall r, In r rs -> exists a, r = inr a.
Proof.
  induction rs as [|[e|a] rs IH]; simpl; intros Hok r Hin.
  - contradiction.
  - discriminate.
  - destruct Hin as [<-|Hin]; [now exists a | now apply IH].
Qed.

Lemma first_error_split {A B : Type} (g : A -> exn + B) (pre suf : list A) (a : A) :
  (forall a', In a' pre -> exists b, g a' = inr b) ->
  first_error (map g (pre ++ a :: suf)%list) =
  match g a with
  | inl e => inl e
  | inr _ => first_error (map g suf)
  end.
Proof.
  induction pre as [|p pre IH]; simpl; intros Hpre.
  - reflexivity.
  - destruct (Hpre p (or_introl eq_refl)) as [b Hb]. rewrite Hb.
    apply IH. intros a' Hin. apply Hpre. now right.
Qed.

Lemma length_until_error {A : Type} (rs : list (exn + A)) :
  first_error rs = inr tt -> List.length (until_error rs) = List.length rs.
Proof.
  induction rs as [|[e|a] rs IH]; simpl; intros Hok;
    [reflexivity | discriminate | now rewrite IH].
Qed.

Lemma nth_until_error {A : Type} (rs : list (exn + A)) (k : nat) (a : A) :
  first_error rs = inr tt ->
  nth_error rs k = Some (inr a) ->
  nth_error (until_error rs) k = Some a.
Proof.
  revert k. induction rs as [|[e|b] rs IH]; intros k Hok Hk; simpl in *.
  - destruct k; discriminate.
  - discriminate.
  - destruct k as [|k]; simpl in *; [congruence | now apply IH].
Qed.

(** ** The coordinates of the loop *)

Lemma range_split (k n : nat) :
  k < n -> range n = (range k ++ k :: seq (S k) (n - S k))%list.
Proof.
  intros Hk. unfold range.
  replace n with (k + S (n - S k)) at 1 by lia.
  rewrite seq_app. reflexivity.
Qed.

Lemma length_row_block (w s n : nat) :
  List.length (flat_map (fun y => map (fun x => (x, y)) (range w)) (seq s n)) = n * w.
Proof.
  revert s. induction n as [|n IH]; intros s; simpl; [reflexivity|].
  rewrite length_app, length_map, IH. unfold range. now rewrite length_seq.
Qed.

Lemma length_visited (h w : nat) : List.length (visited h w) = h * w.
Proof. apply length_row_block. Qed.

Lemma in_visited (h w x y : nat) :
  In (x, y) (visited h w) <-> x < w /\ y < h.
Proof.
  unfold visited, range. rewrite in_flat_map. split.
  - intros [y' [Hy Hin]]. apply in_map_iff in Hin.
    destruct Hin as [x' [[= -> ->] Hx]].
    apply in_seq in Hx. apply in_seq in Hy. lia.
  - intros [Hx Hy]. exists y. split; [apply in_seq; lia|].
    apply in_map_iff. exists x. split; [reflexivity | apply in_seq; lia].
Qed.

(** Row-major order: what comes before [(x0, y0)] is the rows above it in
    full, then the columns to its left. *)
Lemma visited_split (h w x0 y0 : nat) :
  x0 < w -> y0 < h ->
  exists suf,
    visited h w =
    ((visited y0 w ++ map (fun x => (x, y0)) (range x0)) ++ (x0, y0) :: suf)%list.
Proof.
  intros Hx Hy. unfold visited at 1.
  rewrite (range_split y0 h Hy), flat_map_app.
  cbn [flat_map]. fold (visited y0 w).
  assert (Hrow : map (fun x => (x, y0)) (range w) =
                 (map (fun x => (x, y0)) (range x0) ++
                  (x0, y0) :: map (fun x => (x, y0)) (seq (S x0) (w - S x0)))%list).
  { rewrite (range_split x0 w Hx) at 1. now rewrite map_app. }
  rewrite Hrow. eexists. rewrite <- !app_assoc. cbn [app]. reflexivity.
Qed.

Lemma nth_visited (h w x y : nat) :
  x < w -> y < h -> nth_error (visited h w) (y * w + x) = Some (x, y).
Proof.
  intros Hx Hy. destruct (visited_split h w x y Hx Hy) as [suf ->].
  rewrite nth_error_app2;
    rewrite length_app, length_visited, length_map; unfold range;
    rewrite length_seq; [|lia].
  now rewrite Nat.sub_diag.
Qed.

(** ** One pixel *)

Lemma pixel_line_no_nl (im : Image) (xy : nat * nat) (l : string) :
  pixel_line im xy = inr l -> no_nl l = true.
Proof.
  unfold pixel_line. destruct (load im xy) as [e|rbga]; [discriminate|].
  destruct (getitem rbga 2) as [e|c2]; [discriminate|].
  destruct (getitem rbga 0) as [e|c0]; [discriminate|].
  destruct (getitem rbga 1) as [e|c1]; [discriminate|].
  destruct (getitem rbga 3) as [e|c3]; [discriminate|].
  intros [= <-]. no_nl_solve.
Qed.

Lemma load_inside (im : Image) (x y : nat) :
  x < xsize im -> y < ysize im -> load im (x, y) = inr (getpixel im x y).
Proof.
  intros Hx Hy. unfold load.
  apply Nat.ltb_lt in Hx. apply Nat.ltb_lt in Hy. now rewrite Hx, Hy.
Qed.

Lemma load_outside (im : Image) (x y : nat) :
  xsize im <= x \/ ysize im <= y -> load im (x, y) = inl (ImageIndexError x y).
Proof.
  intros Hout. unfold load.
  destruct (x <? xsize im)%nat eqn:Hx; [|reflexivity].
  destruct (y <? ysize im)%nat eqn:Hy; [|reflexivity].
  apply Nat.ltb_lt in Hx. apply Nat.ltb_lt in Hy. lia.
Qed.

Lemma pixel_line_outside (im : Image) (x y : nat) :
  xsize im <= x \/ ysize im <= y ->
  pixel_line im (x, y) = inl (ImageIndexError x y).
Proof. intros Hout. unfold pixel_line. now rewrite load_outside. Qed.

Lemma pixel_line_four_bands (im : Image) (x y : nat) :
  x < xsize im -> y < ysize im -> four_bands (getpixel im x y) = true ->
  exists r g b a rest,
    getpixel im x y = Bands (r :: g :: b :: a :: rest) /\
    pixel_line im (x, y) =
      inr (str b ++ " " ++ str r ++ " " ++ str g ++ " " ++ str a).
Proof.
  intros Hx Hy H4. unfold pixel_line. rewrite load_inside by assumption.
  destruct (getpixel im x y) as [v|[|r [|g [|b [|a rest]]]]]; try discriminate.
  exists r, g, b, a, rest. split; reflexivity.
Qed.

(** ** The run, line by line *)

Lemma lines_header (im : Image) (t : string) :
  lines (header im ++ t) = "P3" :: size_line im :: lines t.
Proof.
  assert (Hassoc : header im ++ t = "P3" ++ nl ++ (size_line im ++ nl ++ t)).
  { unfold header, size_line. now rewrite !append_assoc. }
  rewrite Hassoc, lines_cons by reflexivity.
  rewrite lines_cons; [reflexivity|].
  unfold size_line. no_nl_solve.
Qed.

(** On a decoded image with a writable destination, the run ends with the
    first exception of the pixel turns, and the destination holds the two
    header lines and the lines of the turns before that exception. *)
Lemma run_lines (decode : string -> option Image) (w : World) (im : Image) :
  decoded decode w im ->
  writable w "icon.ppm" = true ->
  outcome decode w =
    first_error (map (pixel_line im) (visited (xsize im) (ysize im))) /\
  exists out,
    output decode w = Some out /\
    lines out =
      "P3" :: size_line im ::
      until_error (map (pixel_line im) (visited (xsize im) (ysize im))).
Proof.
  intros Hdec Hw. destruct (main_run decode w im Hdec Hw) as [Hres Hout].
  assert (Hmap : map (emitted im) (visited (xsize im) (ysize im)) =
                 map terminated
                   (map (pixel_line im) (visited (xsize im) (ysize im)))).
  { now rewrite map_map. }
  rewrite Hmap in Hres, Hout. rewrite collect_outcome in Hres.
  split; [exact Hres|]. eexists. split; [exact Hout|].
  rewrite lines_header, collect_lines; [reflexivity|].
  intros l Hin. apply in_map_iff in Hin. destruct Hin as [xy [Hxy _]].
  now apply pixel_line_no_nl in Hxy.
Qed.

(** A run that completes has opened its destination. *)
Lemma completes_writable (decode : string -> option Image) (w : World) (im : Image) :
  decoded decode w im -> outcome decode w = inr tt ->
  writable w "icon.ppm" = true.
Proof.
  intros Hdec. unfold outcome, main, bind. rewrite Hdec. unfold open_w.
  destruct (writable w "icon.ppm"); [reflexivity | discriminate].
Qed.

(** A run on a decoded image never completes without the destination. *)
Lemma unwritable_raises (decode : string -> option Image) (w : World) (im : Image) :
  decoded decode w im -> writable w "icon.ppm" = false ->
  outcome decode w = inl (PermissionError "icon.ppm").
Proof.
  intros Hdec Hw. unfold outcome, main, bind. rewrite Hdec. unfold open_w.
  now rewrite Hw.
Qed.

(** ** Images that are not square *)

(** The first turn that raises decides the outcome: every turn in the rows
    above [(x0, y0)] and to its left in its row goes through. *)
Lemma first_error_at (im : Image) (h w x0 y0 : nat) (e : exn) :
  x0 < w -> y0 < h ->
  (forall x y, (y < y0 /\ x < w) \/ (y = y0 /\ x < x0) ->
     exists l, pixel_line im (x, y) = inr l) ->
  pixel_line im (x0, y0) = inl e ->
  first_error (map (pixel_line im) (visited h w)) = inl e.
Proof.
  intros Hx Hy Hpre He. destruct (visited_split h w x0 y0 Hx Hy) as [suf ->].
  rewrite first_error_split; [now rewrite He|].
  intros [x y] Hin. apply Hpre. apply in_app_iff in Hin.
  destruct Hin as [Hin|Hin].
  - apply in_visited in Hin. lia.
  - apply in_map_iff in Hin. destruct Hin as [x' [[= -> ->] Hin]].
    apply in_seq in Hin. lia.
Qed.

(** With the sizes transposed, the loop of an image that is not square
    reaches a coordinate outside of it. *)
Lemma oblong_visits_outside (im : Image) :
  0 < xsize im -> 0 < ysize im -> xsize im <> ysize im ->
  exists x y,
    In (x, y) (visited (xsize im) (ysize im)) /\
    (xsize im <= x \/ ysize im <= y).
Proof.
  intros Hx Hy Hne. destruct (Nat.lt_ge_cases (xsize im) (ysize im)) as [Hlt|Hge].
  - exists (xsize im), 0. split; [apply in_visited; lia | lia].
  - exists 0, (ysize im). split; [apply in_visited; lia | lia].
Qed.

Lemma oblong_raises (decode : string -> option Image) (w : World) (im : Image) :
  decoded decode w im -> xsize im <> ysize im ->
  exists e, outcome decode w = inl e.
Proof.
  intros Hdec Hne. destruct (writable w "icon.ppm") eqn:Hw.
  - destruct (run_lines decode w im Hdec Hw) as [Hres _].
    destruct (outcome decode w) as [e|[]] eqn:Hout; [now exists e|].
    exfalso. destruct (decoded_positive decode w im Hdec) as [Hx Hy].
    destruct (oblong_visits_outside im Hx Hy Hne) as [x [y [Hin Hout']]].
    symmetry in Hres.
    destruct (first_error_all_ok _ Hres (pixel_line im (x, y))) as [l Hl].
    + apply in_map. exact Hin.
    + rewrite pixel_line_outside in Hl by exact Hout'. discriminate.
  - eexists. now apply (unwritable_raises decode w im).
Qed.

(** Only the run on a square image can complete. *)
Lemma completes_square (decode : string -> option Image) (w : World) (im : Image) :
  decoded decode w im -> outcome decode w = inr tt -> xsize im = ysize im.
Proof.
  intros Hdec Hok. destruct (Nat.eq_dec (xsize im) (ysize im)) as [Heq|Hne];
    [exact Heq|].
  destruct (oblong_raises decode w im Hdec Hne) as [e He]. congruence.
Qed.

(** ** The first pixel *)

Lemma visited_first (h w : nat) :
  0 < h -> 0 < w -> exists rest, visited h w = (0, 0) :: rest.
Proof.
  intros Hh Hw. destruct (visited_split h w 0 0 Hw Hh) as [suf Hsplit].
  exists suf. exact Hsplit.
Qed.

(** When the first turn of the loop raises, the run ends there with only
    the two header lines written. *)
Lemma first_turn_raises
    (decode : string -> option Image) (w : World) (im : Image) (e : exn) :
  decoded decode w im ->
  writable w "icon.ppm" = true ->
  pixel_line im (0, 0) = inl e ->
  outcome decode w = inl e /\
  exists out, output decode w = Some out /\ lines out = ["P3"; size_line im].
Proof.
  intros Hdec Hw He.
  destruct (run_lines decode w im Hdec Hw) as [Hres [out [Hout Hlines]]].
  destruct (decoded_positive decode w im Hdec) as [Hx Hy].
  destruct (visited_first (xsize im) (ysize im) Hx Hy) as [rest Hv].
  rewrite Hv in Hres, Hlines. simpl in Hres, Hlines. rewrite He in Hres, Hlines.
  split; [exact Hres|]. exists out. split; assumption.
Qed.

(** A single-band image, whose pixels are bare ints, ends the run on a
    type error at its first pixel. *)
Lemma single_band_raises
    (decode : string -> option Image) (w : World) (im : Image) (v : Z) :
  decoded decode w im ->
  writable w "icon.ppm" = true ->
  getpixel im 0 0 = Band v ->
  outcome decode w = inl TypeError.
Proof.
  intros Hdec Hw Hpx.
  destruct (decoded_positive decode w im Hdec) as [Hx Hy].
  apply (first_turn_raises decode w im TypeError Hdec Hw).
  unfold pixel_line. rewrite load_inside, Hpx by assumption. reflexivity.
Qed.

(** ** The second line *)

(** The second line gives the height first. *)
Lemma second_line_transposed
    (decode : string -> option Image) (w : World) (im : Image) :
  decoded decode w im ->
  writable w "icon.ppm" = true ->
  exists out,
    output decode w = Some out /\ nth_error (lines out) 1 = Some (size_line im).
Proof.
  intros Hdec Hw.
  destruct (run_lines decode w im Hdec Hw) as [_ [out [Hout Hlines]]].
  exists out. split; [exact Hout | now rewrite Hlines].
Qed.

(** * The claims *)

(** ** C1: the line of a pixel *)

(** C1, as stated, fails on the 1x1 opaque red image: the line of its only
    pixel (255, 0, 0, 255) is [0 255 0 255], with the alpha value 255 as
    the fourth number, and not the three numbers [0 255 0]. *)
Lemma C1_alpha_is_written :
  decoded (decode_as red1x1) (world_with "PNG") red1x1 /\
  getpixel red1x1 0 0 = Bands [255; 0; 0; 255]%Z /\
  exists out,
    output (decode_as red1x1) (world_with "PNG") = Some out /\
    nth_error (lines out) 2 = Some "0 255 0 255" /\
    nth_error (lines out) 2 <> Some (str 0 ++ " " ++ str 255 ++ " " ++ str 0).
Proof.
  split; [reflexivity|]. split; [reflexivity|].
  eexists. split; [vm_compute; reflexivity|].
  split; [reflexivity | vm_compute; discriminate].
Qed.

(** C1 (amended): on every decoded image on which the run completes, the
    pixel at (x, y) with channel tuple (r, g, b, a) has its own line, the
    line after the two header lines and the lines of the pixels before it
    in row-major order, and that line is exactly the four decimal integers
    [b r g a] separated by single blanks: the alpha value is written as
    the fourth number. *)
Theorem C1_pixel_line_is_b_r_g_a
    (decode : string -> option Image) (w : World) (im : Image)
    (x y : nat) (r g b a : Z) :
  decoded decode w im ->
  outcome decode w = inr tt ->
  x < xsize im -> y < ysize im ->
  getpixel im x y = Bands [r; g; b; a] ->
  exists out,
    output decode w = Some out /\
    nth_error (lines out) (2 + y * xsize im + x) =
      Some (str b ++ " " ++ str r ++ " " ++ str g ++ " " ++ str a).
Proof.
  intros Hdec Hok Hx Hy Hpx.
  pose proof (completes_writable decode w im Hdec Hok) as Hw.
  pose proof (completes_square decode w im Hdec Hok) as Hsq.
  destruct (run_lines decode w im Hdec Hw) as [Hres [out [Hout Hlines]]].
  exists out. split; [exact Hout|]. rewrite Hlines.
  change (2 + y * xsize im + x) with (S (S (y * xsize im + x))). cbn [nth_error].
  apply nth_until_error; [congruence|].
  assert (Hx' : x < ysize im) by lia.
  assert (Hy' : y < xsize im) by lia.
  replace (y * xsize im + x) with (y * ysize im + x) by now rewrite Hsq.
  rewrite (map_nth_error _ _ _ (nth_visited _ _ x y Hx' Hy')).
  unfold pixel_line. rewrite load_inside, Hpx by assumption. reflexivity.
Qed.

Lemma C1_pixel_line_is_b_r_g_a_witness :
  exists out,
    output (decode_as red1x1) (world_with "PNG") = Some out /\
    nth_error (lines out) (2 + 0 * xsize red1x1 + 0) =
      Some (str 0 ++ " " ++ str 255 ++ " " ++ str 0 ++ " " ++ str 255).
Proof.
  apply (C1_pixel_line_is_b_r_g_a (decode_as red1x1) (world_with "PNG") red1x1
           0 0 255 0 0 255).
  - reflexivity.
  - reflexivity.
  - simpl; lia.
  - simpl; lia.
  - reflexivity.
Defined.

(** ** C2: the second line *)

(** C2 at the failing input, the image 2 wide and 1 high: the second line
    of the output is [1 2], the height first, where the true sizes read
    [2 1]. *)
Theorem C2_second_line_of_2x1 :
  decoded (decode_as img2x1) (world_with "PNG") img2x1 /\
  size img2x1 = (2, 1) /\
  exists out,
    output (decode_as img2x1) (world_with "PNG") = Some out /\
    nth_error (lines out) 1 = Some "1 2" /\
    nth_error (lines out) 1 <> Some (str 2 ++ " " ++ str 1).
Proof.
  split; [reflexivity|]. split; [reflexivity|].
  eexists. split; [vm_compute; reflexivity|].
  split; [reflexivity | vm_compute; discriminate].
Qed.

(** ** C3: the run on the image 2 wide and 1 high *)

(** C3, as stated, fails: the output of the run on the 2x1 image is not
    the text of the four lines [P3], [2 1], [30 10 20], [60 40 50]. *)
Lemma C3_not_the_expected_text :
  decoded (decode_as img2x1) (world_with "PNG") img2x1 /\
  output (decode_as img2x1) (world_with "PNG") <>
    Some ("P3" ++ nl ++ "2 1" ++ nl ++ "30 10 20" ++ nl ++ "60 40 50" ++ nl).
Proof.
  split; [reflexivity | vm_compute; discriminate].
Qed.

(** C3 (amended): the run on the 2x1 image with pixels (10,20,30,255) and
    (40,50,60,255) produces an output whose first line is the tag [P3] and
    whose third line, the line of the first pixel, is [30 10 20 255]. *)
Theorem C3_run_on_2x1 (decode : string -> option Image) (w : World) :
  decoded decode w img2x1 ->
  writable w "icon.ppm" = true ->
  exists out,
    output decode w = Some out /\
    nth_error (lines out) 0 = Some "P3" /\
    nth_error (lines out) 2 = Some "30 10 20 255".
Proof.
  intros Hdec Hw.
  destruct (run_lines decode w img2x1 Hdec Hw) as [_ [out [Hout Hlines]]].
  exists out. split; [exact Hout|]. rewrite Hlines. split; reflexivity.
Qed.

Lemma C3_run_on_2x1_witness :
  exists out,
    output (decode_as img2x1) (world_with "PNG") = Some out /\
    nth_error (lines out) 0 = Some "P3" /\
    nth_error (lines out) 2 = Some "30 10 20 255".
Proof.
  apply (C3_run_on_2x1 (decode_as img2x1) (world_with "PNG")); reflexivity.
Defined.

(** ** C4: images whose width differs from their height *)

(** C4, as stated, fails on the RGB image 2 wide and 1 high: its run ends
    at the very first pixel, at (0, 0) inside the image, on the missing
    fourth channel, so no coordinate outside the image is ever read. *)
Lemma C4_rgb_fails_inside_the_image :
  decoded (decode_as rgb2x1) (world_with "PNG") rgb2x1 /\
  xsize rgb2x1 <> ysize rgb2x1 /\
  outcome (decode_as rgb2x1) (world_with "PNG") = inl (TupleIndexError 3) /\
  ~ (exists x y,
       outcome (decode_as rgb2x1) (world_with "PNG") = inl (ImageIndexError x y)).
Proof.
  split; [reflexivity|]. split; [simpl; lia|]. split; [reflexivity|].
  intros [x [y H]]. vm_compute in H. discriminate.
Qed.

(** C4 (amended): for every decoded image whose width differs from its
    height the run raises an exception and never completes, so that only
    the run on a square image can complete.  When the destination can be
    opened and every pixel has at least four channels, the exception is
    the index error of the first pixel access outside the image: at
    (width, 0) when the image is taller than wide, at (0, height) when it
    is wider than tall. *)
Theorem C4_oblong_never_completes
    (decode : string -> option Image) (w : World) (im : Image) :
  decoded decode w im ->
  xsize im <> ysize im ->
  (exists e, outcome decode w = inl e) /\
  (writable w "icon.ppm" = true ->
   (forall x y, x < xsize im -> y < ysize im ->
                four_bands (getpixel im x y) = true) ->
   exists x y,
     outcome decode w = inl (ImageIndexError x y) /\
     (xsize im <= x \/ ysize im <= y) /\
     (x, y) = (if (xsize im <? ysize im)%nat
               then (xsize im, 0) else (0, ysize im))).
Proof.
  intros Hdec Hne. split; [now apply (oblong_raises decode w im)|].
  intros Hw H4. destruct (run_lines decode w im Hdec Hw) as [Hres _].
  destruct (decoded_positive decode w im Hdec) as [Hx Hy].
  assert (Hline : forall x y, x < xsize im -> y < ysize im ->
                    exists l, pixel_line im (x, y) = inr l).
  { intros x y Hx' Hy'.
    destruct (pixel_line_four_bands im x y Hx' Hy' (H4 x y Hx' Hy'))
      as (r & g & b & a & rest & _ & Hl). eauto. }
  rewrite Hres. destruct (xsize im <? ysize im)%nat eqn:Hlt.
  - apply Nat.ltb_lt in Hlt. exists (xsize im), 0.
    split; [|split; [lia | reflexivity]].
    apply (first_error_at im _ _ (xsize im) 0); try lia.
    + intros x y Hpre. apply Hline; lia.
    + apply pixel_line_outside. lia.
  - apply Nat.ltb_ge in Hlt. exists 0, (ysize im).
    split; [|split; [lia | reflexivity]].
    apply (first_error_at im _ _ 0 (ysize im)); try lia.
    + intros x y Hpre. apply Hline; lia.
    + apply pixel_line_outside. lia.
Qed.

(** The image 2 wide and 1 high, four channels: the access at (0, 1). *)
Lemma C4_oblong_never_completes_witness :
  (exists e, outcome (decode_as img2x1) (world_with "PNG") = inl e) /\
  (exists x y,
     outcome (decode_as img2x1) (world_with "PNG") = inl (ImageIndexError x y) /\
     (xsize img2x1 <= x \/ ysize img2x1 <= y) /\
     (x, y) = (0, 1)).
Proof.
  assert (Hdec : decoded (decode_as img2x1) (world_with "PNG") img2x1)
    by reflexivity.
  assert (Hne : xsize img2x1 <> ysize img2x1) by (simpl; lia).
  destruct (C4_oblong_never_completes _ _ _ Hdec Hne) as [Hraises Hindex].
  split; [exact Hraises|]. apply Hindex; [reflexivity|].
  intros [|[|x]] y Hx Hy; simpl in *; solve [reflexivity | lia].
Defined.

(** ** C5: the number of lines *)

(** C5: on every decoded image of width W and height H on which the run
    completes, the output has exactly 2 + W * H lines. *)
Theorem C5_line_count
    (decode : string -> option Image) (w : World) (im : Image) :
  decoded decode w im ->
  outcome decode w = inr tt ->
  exists out,
    output decode w = Some out /\
    List.length (lines out) = 2 + xsize im * ysize im.
Proof.
  intros Hdec Hok.
  pose proof (completes_writable decode w im Hdec Hok) as Hw.
  destruct (run_lines decode w im Hdec Hw) as [Hres [out [Hout Hlines]]].
  exists out. split; [exact Hout|]. rewrite Hlines. cbn [List.length].
  rewrite length_until_error by congruence.
  now rewrite length_map, length_visited.
Qed.

Lemma C5_line_count_witness :
  exists out,
    output (decode_as red1x1) (world_with "PNG") = Some out /\
    List.length (lines out) = 2 + xsize red1x1 * ysize red1x1.
Proof.
  apply (C5_line_count (decode_as red1x1) (world_with "PNG") red1x1); reflexivity.
Defined.

(** ** C6: the run on the 1x1 red image *)

(** C6, as stated, fails: the output of the run on the 1x1 opaque red
    image is not the text of the three lines [P3], [1 1], [0 255 0]. *)
Lemma C6_not_the_expected_text :
  decoded (decode_as red1x1) (world_with "PNG") red1x1 /\
  output (decode_as red1x1) (world_with "PNG") <>
    Some ("P3" ++ nl ++ "1 1" ++ nl ++ "0 255 0" ++ nl).
Proof.
  split; [reflexivity | vm_compute; discriminate].
Qed.

(** C6 (amended): the run on the 1x1 opaque red image, pixel
    (255, 0, 0, 255), completes and produces an output whose contents are
    exactly the tag line [P3], then the line [1 1], then the line
    [0 255 0 255]. *)
Theorem C6_run_on_red_pixel (decode : string -> option Image) (w : World) :
  decoded decode w red1x1 ->
  writable w "icon.ppm" = true ->
  outcome decode w = inr tt /\
  output decode w =
    Some ("P3" ++ nl ++ "1 1" ++ nl ++ "0 255 0 255" ++ nl).
Proof.
  intros Hdec Hw. destruct (main_run decode w red1x1 Hdec Hw) as [Hres Hout].
  split; [exact Hres | exact Hout].
Qed.

Lemma C6_run_on_red_pixel_witness :
  outcome (decode_as red1x1) (world_with "PNG") = inr tt /\
  output (decode_as red1x1) (world_with "PNG") =
    Some ("P3" ++ nl ++ "1 1" ++ nl ++ "0 255 0 255" ++ nl).
Proof.
  apply (C6_run_on_red_pixel (decode_as red1x1) (world_with "PNG")); reflexivity.
Defined.

(** ** C7: the order of the pixel lines *)

(** C7 at the failing input, the image 3 wide and 2 high whose pixel at
    (x, y) is (x, y, 0, 255): the lines written are those of (0,0), (1,0),
    (0,1) and (1,1), after which the access at (0,2) raises.  The pixel
    (2,0) of the first row is passed over, so the lines do not go through
    all horizontal positions of row 0 before row 1. *)
Theorem C7_order_on_3x2 :
  decoded (decode_as img3x2) (world_with "PNG") img3x2 /\
  outcome (decode_as img3x2) (world_with "PNG") = inl (ImageIndexError 0 2) /\
  exists out,
    output (decode_as img3x2) (world_with "PNG") = Some out /\
    lines out =
      ["P3"; "2 3"; "0 0 0 255"; "0 1 0 255"; "0 0 1 255"; "0 1 1 255"].
Proof.
  split; [reflexivity|]. split; [reflexivity|].
  eexists. split; [vm_compute; reflexivity | reflexivity].
Qed.

(** ** C8: the tag line *)

(** C8, as stated, fails: the first line of the output of the run on the
    1x1 red image is a tag of two characters, not three. *)
Lemma C8_tag_is_not_three_characters :
  decoded (decode_as red1x1) (world_with "PNG") red1x1 /\
  exists out tag,
    output (decode_as red1x1) (world_with "PNG") = Some out /\
    nth_error (lines out) 0 = Some tag /\
    String.length tag <> 3.
Proof.
  split; [reflexivity|]. eexists. eexists.
  split; [vm_compute; reflexivity|]. split; [reflexivity|].
  simpl. lia.
Qed.

(** C8 (amended): the first line of every output file the run produces is
    the literal two-character tag [P3], followed by a line terminator. *)
Theorem C8_first_line_is_P3
    (decode : string -> option Image) (w : World) (im : Image) :
  decoded decode w im ->
  writable w "icon.ppm" = true ->
  exists out rest,
    output decode w = Some out /\
    out = "P3" ++ nl ++ rest /\
    nth_error (lines out) 0 = Some "P3" /\
    String.length "P3" = 2.
Proof.
  intros Hdec Hw. destruct (main_run decode w im Hdec Hw) as [_ Hout].
  eexists. eexists. split; [exact Hout|].
  split; [unfold header; rewrite !append_assoc; reflexivity|].
  rewrite lines_header. split; reflexivity.
Qed.

Lemma C8_first_line_is_P3_witness :
  exists out rest,
    output (decode_as img2x1) (world_with "PNG") = Some out /\
    out = "P3" ++ nl ++ rest /\
    nth_error (lines out) 0 = Some "P3" /\
    String.length "P3" = 2.
Proof.
  apply (C8_first_line_is_P3 (decode_as img2x1) (world_with "PNG") img2x1);
    reflexivity.
Defined.

(** ** C9: pixels with fewer than four channels *)

(** C9, as stated, fails on the 1x1 image in mode LA, two channels per
    pixel: the run ends on the index error of channel index 2, the first
    index the line formats; channel index 3 is never reached. *)
Lemma C9_two_channels_fail_at_index_2 :
  decoded (decode_as la1x1) (world_with "PNG") la1x1 /\
  getpixel la1x1 0 0 = Bands [7; 255]%Z /\
  outcome (decode_as la1x1) (world_with "PNG") = inl (TupleIndexError 2) /\
  outcome (decode_as la1x1) (world_with "PNG") <> inl (TupleIndexError 3).
Proof.
  split; [reflexivity|]. split; [reflexivity|]. split; [reflexivity|].
  vm_compute. discriminate.
Qed.

(** C9 (amended): for every decoded image whose pixels are tuples of fewer
    than four channel values, formatting the first pixel raises an index
    error, at channel index 3 when the pixel has exactly three values and
    at channel index 2 when it has fewer.  Nothing catches it: the run
    ends at that pixel, with the two header lines written and no pixel
    line. *)
Theorem C9_missing_channel
    (decode : string -> option Image) (w : World) (im : Image) (t : list Z) :
  decoded decode w im ->
  writable w "icon.ppm" = true ->
  getpixel im 0 0 = Bands t ->
  List.length t < 4 ->
  outcome decode w =
    inl (TupleIndexError (if (List.length t =? 3)%nat then 3 else 2)) /\
  exists out, output decode w = Some out /\ lines out = ["P3"; size_line im].
Proof.
  intros Hdec Hw Hpx Hlen.
  destruct (decoded_positive decode w im Hdec) as [Hx Hy].
  apply (first_turn_raises decode w im _ Hdec Hw).
  unfold pixel_line. rewrite load_inside, Hpx by assumption.
  destruct t as [|c0 [|c1 [|c2 [|c3 t]]]]; simpl in *; try reflexivity; lia.
Qed.

Lemma C9_missing_channel_witness :
  outcome (decode_as rgb2x1) (world_with "PNG") =
    inl (TupleIndexError
           (if (List.length [10; 20; 30]%Z =? 3)%nat then 3 else 2)) /\
  exists out,
    output (decode_as rgb2x1) (world_with "PNG") = Some out /\
    lines out = ["P3"; size_line rgb2x1].
Proof.
  apply (C9_missing_channel (decode_as rgb2x1) (world_with "PNG") rgb2x1
           [10; 20; 30]%Z).
  - reflexivity.
  - reflexivity.
  - reflexivity.
  - simpl; lia.
Defined.

(** ** C10: an input that cannot be decoded *)

(** C10: when [icon.png] does not decode to an image, because it is
    missing or because PIL does not make an image of it, the run ends on
    that decode error with the file system as it found it: the destination
    is not opened, not created and not written to. *)
Theorem C10_decode_failure (decode : string -> option Image) (w : World) :
  (forall im, ~ decoded decode w im) ->
  exists e,
    main decode w = (inl e, w) /\
    (e = FileNotFoundError "icon.png" \/
     e = UnidentifiedImageError "icon.png") /\
    output decode w = files w "icon.ppm".
Proof.
  intros Hno. unfold output, main, bind.
  pose proof Hno as Hno'. unfold decoded, Image_open in Hno'.
  unfold Image_open, raise, ret in *.
  destruct (files w "icon.png") as [bytes|].
  - destruct (decode bytes) as [im|].
    + destruct ((0 <? xsize im) && (0 <? ysize im))%nat.
      * exfalso. now apply (Hno' im).
      * eexists. split; [reflexivity|]. split; [now right | reflexivity].
    + eexists. split; [reflexivity|]. split; [now right | reflexivity].
  - eexists. split; [reflexivity|]. split; [now left | reflexivity].
Qed.

Lemma C10_decode_failure_witness :
  exists e,
    main (decode_as red1x1) empty_world = (inl e, empty_world) /\
    (e = FileNotFoundError "icon.png" \/
     e = UnidentifiedImageError "icon.png") /\
    output (decode_as red1x1) empty_world = files empty_world "icon.ppm".
Proof.
  apply (C10_decode_failure (decode_as red1x1) empty_world).
  intros im H. vm_compute in H. discriminate.
Defined.

(** * Further properties of the script *)

(** ** The files the run leaves alone *)

Lemma same_but_refl (path : string) (w : World) : same_but path w w.
Proof. split; reflexivity. Qed.

Lemma same_but_trans (path : string) (w1 w2 w3 : World) :
  same_but path w1 w2 -> same_but path w2 w3 -> same_but path w1 w3.
Proof.
  intros [Hf12 Hw12] [Hf23 Hw23]. split.
  - intros p Hp. now rewrite Hf23, Hf12.
  - intros p. now rewrite Hw23, Hw12.
Qed.

Lemma same_but_set_file (path c : string) (w : World) :
  same_but path w (set_file w path c).
Proof.
  split; [|reflexivity]. intros p Hp. simpl.
  apply String.eqb_neq in Hp. now rewrite Hp.
Qed.

Lemma for_each_same_but {A : Type} (path : string) (body : A -> M unit)
    (l : list A) :
  (forall a w, same_but path w (snd (body a w))) ->
  forall w, same_but path w (snd (for_each l body w)).
Proof.
  intros Hbody. induction l as [|a l IH]; intros w; simpl.
  - apply same_but_refl.
  - unfold bind. pose proof (Hbody a w) as Ha.
    destruct (body a w) as [[e|[]] w1]; simpl in *; [exact Ha|].
    apply (same_but_trans path w w1); [exact Ha | apply IH].
Qed.

Lemma emit_same_but (im : Image) (outfile : string) (x y : nat) (w : World) :
  same_but outfile w (snd (emit (load im) outfile x y w)).
Proof.
  rewrite emit_run. destruct (emitted im (x, y)) as [e|s]; simpl.
  - apply same_but_refl.
  - apply same_but_set_file.
Qed.

(** Whatever happens to the run, it changes no file but the destination
    and no permission. *)
Lemma main_same_but (decode : string -> option Image) (w : World) :
  same_but "icon.ppm" w (snd (main decode w)).
Proof.
  unfold main, bind.
  destruct (Image_open decode "icon.png" w) as [[e|im] w0] eqn:Hopen.
  - unfold Image_open, raise, ret in Hopen.
    destruct (files w "icon.png") as [bytes|]; [|injection Hopen as _ <-;
      apply same_but_refl].
    destruct (decode bytes) as [im|]; [|injection Hopen as _ <-;
      apply same_but_refl].
    destruct ((0 <? xsize im) && (0 <? ysize im))%nat;
      [discriminate | injection Hopen as _ <-; apply same_but_refl].
  - assert (Hw0 : w0 = w).
    { unfold Image_open, raise, ret in Hopen.
      destruct (files w "icon.png") as [bytes|]; [|discriminate].
      destruct (decode bytes) as [im'|]; [|discriminate].
      destruct ((0 <? xsize im') && (0 <? ysize im'))%nat;
        [now injection Hopen | discriminate]. }
    subst w0. unfold open_w.
    destruct (writable w "icon.ppm"); [|apply same_but_refl].
    unfold ret, size, write.
    eapply same_but_trans; [apply same_but_set_file|].
    eapply same_but_trans; [apply same_but_set_file|].
    apply for_each_same_but. intros y w1.
    apply for_each_same_but. intros x w2. apply emit_same_but.
Qed.

(** X1: the run reads [icon.png] and writes [icon.ppm] and nothing else:
    in every file system and with every outcome, each file other than
    [icon.ppm] is after the run what it was before, the input file among
    them, and no path changes permission. *)
Theorem main_touches_only_destination
    (decode : string -> option Image) (w : World) (p : string) :
  (p <> "icon.ppm" -> files (snd (main decode w)) p = files w p) /\
  files (snd (main decode w)) "icon.png" = files w "icon.png" /\
  writable (snd (main decode w)) p = writable w p.
Proof.
  destruct (main_same_but decode w) as [Hfiles Hperm].
  split; [apply Hfiles|]. split; [|apply Hperm].
  apply Hfiles. discriminate.
Qed.

(** X2: when the image decodes but the destination cannot be opened for
    writing, the run ends on the permission error of [open] with the file
    system as it found it: no header is written, and a destination that
    existed keeps its old contents. *)
Theorem unwritable_destination
    (decode : string -> option Image) (w : World) (im : Image) :
  decoded decode w im ->
  writable w "icon.ppm" = false ->
  main decode w = (inl (PermissionError "icon.ppm"), w).
Proof.
  intros Hdec Hw. unfold main, bind. rewrite Hdec. unfold open_w.
  now rewrite Hw.
Qed.

Lemma unwritable_destination_witness :
  main (decode_as red1x1) (locked_world "PNG") =
    (inl (PermissionError "icon.ppm"), locked_world "PNG").
Proof.
  apply (unwritable_destination (decode_as red1x1) (locked_world "PNG") red1x1);
    reflexivity.
Defined.

(** X3: opening the destination truncates it: the outcome of the run and
    the contents of [icon.ppm] after it depend on the decoded image only,
    not on what the destination or any other file held before. *)
Theorem output_forgets_old_contents
    (decode1 decode2 : string -> option Image) (w1 w2 : World) (im : Image) :
  decoded decode1 w1 im ->
  decoded decode2 w2 im ->
  writable w1 "icon.ppm" = true ->
  writable w2 "icon.ppm" = true ->
  outcome decode1 w1 = outcome decode2 w2 /\
  output decode1 w1 = output decode2 w2.
Proof.
  intros Hd1 Hd2 Hw1 Hw2.
  destruct (main_run decode1 w1 im Hd1 Hw1) as [Hr1 Ho1].
  destruct (main_run decode2 w2 im Hd2 Hw2) as [Hr2 Ho2].
  split; congruence.
Qed.

Lemma output_forgets_old_contents_witness :
  outcome (decode_as red1x1) (world_with "PNG") =
    outcome (decode_as red1x1) (stale_world "PNG" "old text") /\
  output (decode_as red1x1) (world_with "PNG") =
    output (decode_as red1x1) (stale_world "PNG" "old text").
Proof.
  apply (output_forgets_old_contents (decode_as red1x1) (decode_as red1x1)
           (world_with "PNG") (stale_world "PNG" "old text") red1x1);
    reflexivity.
Defined.

(** ** Running the script again *)

(** Decoding leaves the file system alone and ends in an image or in one
    of the two decode errors. *)
Lemma Image_open_result (decode : string -> option Image) (path : string)
    (w : World) :
  (exists im, Image_open decode path w = (inr im, w)) \/
  Image_open decode path w = (inl (FileNotFoundError path), w) \/
  Image_open decode path w = (inl (UnidentifiedImageError path), w).
Proof.
  unfold Image_open, raise, ret.
  destruct (files w path) as [bytes|]; [|now right; left].
  destruct (decode bytes) as [im|]; [|now right; right].
  destruct ((0 <? xsize im) && (0 <? ysize im))%nat;
    [left; now exists im | now right; right].
Qed.

Lemma main_decode_error (decode : string -> option Image) (w : World) (e : exn) :
  Image_open decode "icon.png" w = (inl e, w) -> main decode w = (inl e, w).
Proof. intros Hopen. unfold main, bind. now rewrite Hopen. Qed.

(** Decoding looks at the input file only. *)
Lemma decoded_same_input (decode : string -> option Image) (w w' : World)
    (im : Image) :
  files w' "icon.png" = files w "icon.png" ->
  decoded decode w im -> decoded decode w' im.
Proof.
  unfold decoded, Image_open, raise, ret. intros ->.
  destruct (files w "icon.png") as [bytes|]; [|discriminate].
  destruct (decode bytes) as [im'|]; [|discriminate].
  destruct ((0 <? xsize im') && (0 <? ysize im'))%nat; [|discriminate].
  now intros [= ->].
Qed.

(** X4: running the script a second time, on the file system the first
    run left, ends the same way and leaves the same [icon.ppm]: the
    second run overwrites the destination with the same text instead of
    appending to it. *)
Theorem second_run_same_output (decode : string -> option Image) (w : World) :
  outcome decode (snd (main decode w)) = outcome decode w /\
  output decode (snd (main decode w)) = output decode w.
Proof.
  destruct (Image_open_result decode "icon.png" w) as [[im Hdec]|Herr].
  - destruct (writable w "icon.ppm") eqn:Hw.
    + destruct (main_same_but decode w) as [Hfiles Hperm].
      assert (Hdec' : decoded decode (snd (main decode w)) im).
      { apply (decoded_same_input decode w); [|exact Hdec].
        apply Hfiles. discriminate. }
      assert (Hw' : writable (snd (main decode w)) "icon.ppm" = true)
        by now rewrite Hperm.
      destruct (main_run decode w im Hdec Hw) as [Hr Ho].
      destruct (main_run decode _ im Hdec' Hw') as [Hr' Ho'].
      split; congruence.
    + assert (Hmain : main decode w = (inl (PermissionError "icon.ppm"), w)).
      { unfold main, bind. rewrite Hdec. unfold open_w. now rewrite Hw. }
      rewrite Hmain. split; reflexivity.
  - destruct Herr as [Herr|Herr];
      rewrite (main_decode_error decode w _ Herr); split; reflexivity.
Qed.

(** ** The images that convert *)

Lemma first_error_none {A B : Type} (g : A -> exn + B) (l : list A) :
  (forall a, In a l -> exists b, g a = inr b) ->
  first_error (map g l) = inr tt.
Proof.
  induction l as [|a l IH]; simpl; intros Hok; [reflexivity|].
  destruct (Hok a (or_introl eq_refl)) as [b ->].
  apply IH. intros a' Hin. apply Hok. now right.
Qed.

(** X5: with a destination that opens and pixels of at least four
    channels, the run completes exactly on the square images: on every
    square image it goes through without an exception, on every other it
    raises. *)
Theorem converts_iff_square
    (decode : string -> option Image) (w : World) (im : Image) :
  decoded decode w im ->
  writable w "icon.ppm" = true ->
  (forall x y, x < xsize im -> y < ysize im ->
               four_bands (getpixel im x y) = true) ->
  (outcome decode w = inr tt <-> xsize im = ysize im).
Proof.
  intros Hdec Hw H4. split; [now apply (completes_square decode w im)|].
  intros Hsq. destruct (run_lines decode w im Hdec Hw) as [-> _].
  apply first_error_none. intros [x y] Hin. apply in_visited in Hin.
  destruct (pixel_line_four_bands im x y) as (r & g & b & a & rest & _ & Hl);
    [lia | lia | apply H4; lia | eauto].
Qed.

Lemma converts_iff_square_witness :
  outcome (decode_as red1x1) (world_with "PNG") = inr tt <->
  xsize red1x1 = ysize red1x1.
Proof.
  apply (converts_iff_square (decode_as red1x1) (world_with "PNG") red1x1).
  - reflexivity.
  - reflexivity.
  - intros x y Hx Hy. reflexivity.
Defined.

(** ** What a failing run leaves behind *)

Lemma until_error_split {A B : Type} (g : A -> exn + B) (pre suf : list A)
    (a : A) (e : exn) :
  (forall a', In a' pre -> exists b, g a' = inr b) ->
  g a = inl e ->
  List.length (until_error (map g (pre ++ a :: suf)%list)) = List.length pre.
Proof.
  intros Hpre He. induction pre as [|p pre IH]; simpl.
  - now rewrite He.
  - destruct (Hpre p (or_introl eq_refl)) as [b ->]. simpl. f_equal.
    apply IH. intros a' Hin. apply Hpre. now right.
Qed.

(** The number of pixel lines written when the first exception is raised
    at [(x0, y0)]: the rows above in full and the columns to the left. *)
Lemma lines_before_error (im : Image) (h w x0 y0 : nat) (e : exn) :
  x0 < w -> y0 < h ->
  (forall x y, (y < y0 /\ x < w) \/ (y = y0 /\ x < x0) ->
     exists l, pixel_line im (x, y) = inr l) ->
  pixel_line im (x0, y0) = inl e ->
  List.length (until_error (map (pixel_line im) (visited h w))) = y0 * w + x0.
Proof.
  intros Hx Hy Hpre He. destruct (visited_split h w x0 y0 Hx Hy) as [suf ->].
  rewrite (until_error_split _ _ _ _ e); [| |exact He].
  - rewrite length_app, length_visited, length_map. unfold range.
    now rewrite length_seq.
  - intros [x y] Hin. apply Hpre. apply in_app_iff in Hin.
    destruct Hin as [Hin|Hin].
    + apply in_visited in Hin. lia.
    + apply in_map_iff in Hin. destruct Hin as [x' [[= -> ->] Hin]].
      apply in_seq in Hin. lia.
Qed.

(** X6: a failing run leaves its partial output behind.  On a decoded
    image of width W and height H with W different from H and pixels of at
    least four channels, the destination holds the two header lines and
    the pixel lines written before the index error: W of them when the
    image is taller than wide, H * H of them when it is wider than
    tall. *)
Theorem partial_output_of_oblong
    (decode : string -> option Image) (w : World) (im : Image) :
  decoded decode w im ->
  writable w "icon.ppm" = true ->
  xsize im <> ysize im ->
  (forall x y, x < xsize im -> y < ysize im ->
               four_bands (getpixel im x y) = true) ->
  exists out,
    output decode w = Some out /\
    List.length (lines out) =
      2 + (if (xsize im <? ysize im)%nat then xsize im else ysize im * ysize im).
Proof.
  intros Hdec Hw Hne H4.
  destruct (run_lines decode w im Hdec Hw) as [_ [out [Hout Hlines]]].
  destruct (decoded_positive decode w im Hdec) as [Hx Hy].
  assert (Hline : forall x y, x < xsize im -> y < ysize im ->
                    exists l, pixel_line im (x, y) = inr l).
  { intros x y Hx' Hy'.
    destruct (pixel_line_four_bands im x y Hx' Hy' (H4 x y Hx' Hy'))
      as (r & g & b & a & rest & _ & Hl). eauto. }
  exists out. split; [exact Hout|]. rewrite Hlines. cbn [List.length].
  do 2 f_equal. destruct (xsize im <? ysize im)%nat eqn:Hlt.
  - apply Nat.ltb_lt in Hlt.
    rewrite (lines_before_error im _ _ (xsize im) 0 (ImageIndexError (xsize im) 0));
      try lia.
    + intros x y Hpre. apply Hline; lia.
    + apply pixel_line_outside. lia.
  - apply Nat.ltb_ge in Hlt.
    rewrite (lines_before_error im _ _ 0 (ysize im) (ImageIndexError 0 (ysize im)));
      try lia.
    + intros x y Hpre. apply Hline; lia.
    + apply pixel_line_outside. lia.
Qed.

Lemma partial_output_of_oblong_witness :
  exists out,
    output (decode_as img3x2) (world_with "PNG") = Some out /\
    List.length (lines out) =
      2 + (if (xsize img3x2 <? ysize img3x2)%nat
           then xsize img3x2 else ysize img3x2 * ysize img3x2).
Proof.
  apply (partial_output_of_oblong (decode_as img3x2) (world_with "PNG") img3x2).
  - reflexivity.
  - reflexivity.
  - simpl; lia.
  - intros x y Hx Hy. reflexivity.
Defined.

(** ** The exceptions of a run *)





(** ** The shape of the output *)

Lemma collect_unlines (rs : list (exn + string)) :
  snd (collect (map terminated rs)) = unlines (until_error rs).
Proof.
  induction rs as [|[e|l] rs IH]; simpl; try reflexivity.
  destruct (collect (map terminated rs)) as [r t]. simpl in *.
  now rewrite append_assoc, IH.
Qed.

(** X8: the output is made of whole lines, also when the run fails half
    way: whenever the destination has been opened, the text it holds after
    the run is its lines put together again, each followed by a line
    terminator.  No line is left unfinished, and the text ends with a line
    terminator. *)
Theorem output_is_whole_lines
    (decode : string -> option Image) (w : World) (im : Image) :
  decoded decode w im ->
  writable w "icon.ppm" = true ->
  exists out, output decode w = Some out /\ unlines (lines out) = out.
Proof.
  intros Hdec Hw.
  destruct (run_lines decode w im Hdec Hw) as [_ [out [Hout Hlines]]].
  destruct (main_run decode w im Hdec Hw) as [_ Hout'].
  exists out. split; [exact Hout|]. rewrite Hlines.
  assert (Htext : out = header im ++
            snd (collect (map (emitted im) (visited (xsize im) (ysize im)))))
    by congruence.
  rewrite Htext.
  assert (Hmap : map (emitted im) (visited (xsize im) (ysize im)) =
                 map terminated
                   (map (pixel_line im) (visited (xsize im) (ysize im)))).
  { now rewrite map_map. }
  rewrite Hmap, collect_unlines. cbn [unlines].
  unfold header, size_line. now rewrite !append_assoc.
Qed.

Lemma output_is_whole_lines_witness :
  exists out,
    output (decode_as img3x2) (world_with "PNG") = Some out /\
    unlines (lines out) = out.
Proof.
  apply (output_is_whole_lines (decode_as img3x2) (world_with "PNG") img3x2);
    reflexivity.
Defined.

(** X9: the header is written before any pixel is read: whenever the image
    decodes and the destination opens, also when the run fails later, the
    first two lines of the output are the tag and the size line, and the
    size line gives the decimal height, a blank, and the decimal width of
    the image.  On a square image this is the true size, width first. *)
Theorem header_always_written
    (decode : string -> option Image) (w : World) (im : Image) :
  decoded decode w im ->
  writable w "icon.ppm" = true ->
  exists out rest,
    output decode w = Some out /\
    lines out =
      "P3" ::
      (str (Z.of_nat (ysize im)) ++ " " ++ str (Z.of_nat (xsize im))) :: rest /\
    (xsize im = ysize im ->
     nth_error (lines out) 1 =
       Some (str (Z.of_nat (xsize im)) ++ " " ++ str (Z.of_nat (ysize im)))).
Proof.
  intros Hdec Hw.
  destruct (run_lines decode w im Hdec Hw) as [_ [out [Hout Hlines]]].
  exists out. eexists. split; [exact Hout|]. split; [exact Hlines|].
  intros Hsq. rewrite Hlines. cbn [nth_error]. unfold size_line.
  now rewrite Hsq.
Qed.

Lemma header_always_written_witness :
  exists out rest,
    output (decode_as rgb2x1) (world_with "PNG") = Some out /\
    lines out =
      "P3" ::
      (str (Z.of_nat (ysize rgb2x1)) ++ " " ++ str (Z.of_nat (xsize rgb2x1)))
      :: rest /\
    (xsize rgb2x1 = ysize rgb2x1 ->
     nth_error (lines out) 1 =
       Some (str (Z.of_nat (xsize rgb2x1)) ++ " " ++
             str (Z.of_nat (ysize rgb2x1)))).
Proof.
  apply (header_always_written (decode_as rgb2x1) (world_with "PNG") rgb2x1);
    reflexivity.
Defined.

(** ** Reading the pixels back *)

Lemma no_sp_uint (d : uint) : no_sp (NilEmpty.string_of_uint d) = true.
Proof. induction d; simpl; auto. Qed.

Lemma no_sp_str (n : Z) : no_sp (str n) = true.
Proof.
  unfold str, NilZero.string_of_int.
  destruct (Z.to_int n) as [d|d]; unfold NilZero.string_of_uint;
    destruct d; simpl; auto using no_sp_uint.
Qed.

(** Two numbers with the same decimal text are the same number. *)
Lemma str_inj (m n : Z) : str m = str n -> m = n.
Proof.
  unfold str. intros Heq. apply DecimalZ.to_int_inj.
  assert (Hnonnil : forall z, Z.to_int z <> Pos Nil /\ Z.to_int z <> Neg Nil).
  { intros [|p|p]; simpl; split; try discriminate;
      intros [= H]; now apply (DecimalPos.Unsigned.to_uint_nonnil p). }
  apply (f_equal NilZero.int_of_string) in Heq.
  rewrite !NilZero.isi in Heq by apply Hnonnil. congruence.
Qed.

(** A text is cut at its first blank in one way only. *)
Lemma app_blank_inj (a c b d : string) :
  no_sp a = true -> no_sp c = true ->
  a ++ String " " b = c ++ String " " d -> a = c /\ b = d.
Proof.
  revert c. induction a as [|x a IH]; intros [|y c]; simpl; intros Ha Hc Heq.
  - injection Heq as ->. auto.
  - injection Heq as <- _. discriminate.
  - injection Heq as -> _. discriminate.
  - injection Heq as -> Heq.
    apply andb_prop in Ha. apply andb_prop in Hc.
    destruct (IH c (proj2 Ha) (proj2 Hc) Heq) as [-> ->]. auto.
Qed.

(** The line of a pixel tells its four channels. *)
Lemma rgba_line_inj (r g b a r' g' b' a' : Z) :
  str b ++ " " ++ str r ++ " " ++ str g ++ " " ++ str a =
  str b' ++ " " ++ str r' ++ " " ++ str g' ++ " " ++ str a' ->
  r = r' /\ g = g' /\ b = b' /\ a = a'.
Proof.
  intros Heq.
  apply app_blank_inj in Heq; try apply no_sp_str. destruct Heq as [Hb Heq].
  apply app_blank_inj in Heq; try apply no_sp_str. destruct Heq as [Hr Heq].
  apply app_blank_inj in Heq; try apply no_sp_str. destruct Heq as [Hg Ha].
  auto using str_inj.
Qed.

(** The size line tells the two sizes. *)
Lemma size_line_inj (im im' : Image) :
  size_line im = size_line im' -> xsize im = xsize im' /\ ysize im = ysize im'.
Proof.
  unfold size_line. intros Heq.
  apply app_blank_inj in Heq; try apply no_sp_str. destruct Heq as [Hy Hx].
  apply str_inj, Nat2Z.inj in Hy. apply str_inj, Nat2Z.inj in Hx. auto.
Qed.

(** In a run that completes, the pixel at (x, y) has the line number
    y * width + x among the pixel lines. *)
Lemma completed_pixel_line
    (decode : string -> option Image) (w : World) (im : Image) (x y : nat) :
  decoded decode w im ->
  outcome decode w = inr tt ->
  x < xsize im -> y < ysize im ->
  exists l,
    pixel_line im (x, y) = inr l /\
    nth_error (until_error (map (pixel_line im) (visited (xsize im) (ysize im))))
              (y * xsize im + x) = Some l.
Proof.
  intros Hdec Hok Hx Hy.
  pose proof (completes_writable decode w im Hdec Hok) as Hw.
  pose proof (completes_square decode w im Hdec Hok) as Hsq.
  destruct (run_lines decode w im Hdec Hw) as [Hres _].
  assert (Hx' : x < ysize im) by lia.
  assert (Hy' : y < xsize im) by lia.
  assert (Hnth : nth_error (map (pixel_line im) (visited (xsize im) (ysize im)))
                   (y * xsize im + x) = Some (pixel_line im (x, y))).
  { replace (y * xsize im + x) with (y * ysize im + x) by now rewrite Hsq.
    apply map_nth_error, nth_visited; assumption. }
  destruct (first_error_all_ok _ (eq_sym (eq_trans (eq_sym Hok) Hres))
              (pixel_line im (x, y))) as [l Hl].
  { eapply nth_error_In. exact Hnth. }
  exists l. split; [exact Hl|].
  apply nth_until_error; [congruence | now rewrite Hnth, Hl].
Qed.

Lemma rgba_pixel_line (im : Image) (x y : nat) :
  x < xsize im -> y < ysize im -> rgba (getpixel im x y) = true ->
  exists r g b a,
    getpixel im x y = Bands [r; g; b; a] /\
    pixel_line im (x, y) =
      inr (str b ++ " " ++ str r ++ " " ++ str g ++ " " ++ str a).
Proof.
  intros Hx Hy H4. unfold pixel_line. rewrite load_inside by assumption.
  destruct (getpixel im x y) as [v|[|r [|g [|b [|a [|c t]]]]]]; try discriminate.
  exists r, g, b, a. split; reflexivity.
Qed.

(** X10: the dump loses nothing of an RGBA image.  When the runs on two
    decoded images whose pixels all have exactly four channels both
    complete and leave the same text in [icon.ppm], the two images have
    the same width, the same height and the same pixel at every
    coordinate: sizes and channel values can be read back from the
    output. *)
Theorem output_determines_image
    (decode1 decode2 : string -> option Image) (w1 w2 : World)
    (im1 im2 : Image) :
  decoded decode1 w1 im1 ->
  decoded decode2 w2 im2 ->
  outcome decode1 w1 = inr tt ->
  outcome decode2 w2 = inr tt ->
  (forall x y, x < xsize im1 -> y < ysize im1 ->
               rgba (getpixel im1 x y) = true) ->
  (forall x y, x < xsize im2 -> y < ysize im2 ->
               rgba (getpixel im2 x y) = true) ->
  output decode1 w1 = output decode2 w2 ->
  xsize im1 = xsize im2 /\
  ysize im1 = ysize im2 /\
  (forall x y, x < xsize im1 -> y < ysize im1 ->
               getpixel im1 x y = getpixel im2 x y).
Proof.
  intros Hd1 Hd2 Hok1 Hok2 H41 H42 Hsame.
  pose proof (completes_writable decode1 w1 im1 Hd1 Hok1) as Hw1.
  pose proof (completes_writable decode2 w2 im2 Hd2 Hok2) as Hw2.
  destruct (run_lines decode1 w1 im1 Hd1 Hw1) as [_ [out1 [Hout1 Hl1]]].
  destruct (run_lines decode2 w2 im2 Hd2 Hw2) as [_ [out2 [Hout2 Hl2]]].
  assert (Hout : out1 = out2) by congruence. subst out2.
  rewrite Hl1 in Hl2. injection Hl2 as Hsize Hpixels.
  destruct (size_line_inj im1 im2 Hsize) as [Hx Hy].
  split; [exact Hx|]. split; [exact Hy|].
  intros x y Hx1 Hy1.
  assert (Hx2 : x < xsize im2) by lia.
  assert (Hy2 : y < ysize im2) by lia.
  destruct (completed_pixel_line decode1 w1 im1 x y Hd1 Hok1 Hx1 Hy1)
    as [l1 [Hline1 Hnth1]].
  destruct (completed_pixel_line decode2 w2 im2 x y Hd2 Hok2 Hx2 Hy2)
    as [l2 [Hline2 Hnth2]].
  rewrite Hpixels, Hx, Hnth2 in Hnth1. injection Hnth1 as ->.
  destruct (rgba_pixel_line im1 x y Hx1 Hy1 (H41 x y Hx1 Hy1))
    as (r & g & b & a & Hp1 & Hq1).
  destruct (rgba_pixel_line im2 x y Hx2 Hy2 (H42 x y Hx2 Hy2))
    as (r' & g' & b' & a' & Hp2 & Hq2).
  rewrite Hq1 in Hline1. rewrite Hq2 in Hline2.
  injection Hline1 as Hline1. injection Hline2 as Hline2.
  rewrite <- Hline2 in Hline1.
  destruct (rgba_line_inj _ _ _ _ _ _ _ _ Hline1) as (-> & -> & -> & ->).
  now rewrite Hp1, Hp2.
Qed.

Lemma output_determines_image_witness :
  xsize red1x1 = xsize red1x1 /\
  ysize red1x1 = ysize red1x1 /\
  (forall x y, x < xsize red1x1 -> y < ysize red1x1 ->
               getpixel red1x1 x y = getpixel red1x1 x y).
Proof.
  apply (output_determines_image (decode_as red1x1) (decode_as red1x1)
           (world_with "PNG") (stale_world "PNG" "old text") red1x1 red1x1).
  - reflexivity.
  - reflexivity.
  - reflexivity.
  - reflexivity.
  - intros x y Hx Hy. reflexivity.
  - intros x y Hx Hy. reflexivity.
  - reflexivity.
Defined.
